(** * XorConstant: compile-time encrypted constants (src/XorConstant.hpp)

    A shallow embedding of the class template [enc::XorConstant<T,
    ConstantValue, Seed>], of the helper [enc::MakeXorConstantImpl] and of
    the macro [MakeXorConstant], followed by the properties of the transform
    [EncryptData] / [DecryptData] and of the accessors [Get] / [GetCrypt].

    Integers of the program are mathematical integers ([Z]) with every
    wrap-around written out; the 128-bit SSE register is a pair of 64-bit
    lanes; floating-point values are IEEE 754 values of the Standard
    Library's [SpecFloat]. *)

From Stdlib Require Import ZArith Lia Bool String List.
From Stdlib Require Import Floats.SpecFloat.
Import ListNotations.

Local Open Scope Z_scope.

(** ** Fixed-width integers *)

(** Conversion to [uint64_t]: reduction modulo 2^64. *)
Definition to_uint64 (z : Z) : Z := z mod 2 ^ 64.

(** Conversion to [__int64]: the two's-complement reading of the low 64 bits. *)
Definition to_int64 (z : Z) : Z :=
  let u := z mod 2 ^ 64 in
  if u <? 2 ^ 63 then u else u - 2 ^ 64.

(** ** The SSE2 intrinsics of <immintrin.h> used by the class

    An [__m128i] holds two 64-bit lanes; each lane is kept as its unsigned
    value in [0, 2^64). *)

Record __m128i : Type := { lo64 : Z; hi64 : Z }.

(** [__m128i m = {}] *)
Definition zero_m128i : __m128i := {| lo64 := 0; hi64 := 0 |}.

(** Broadcast of one 64-bit integer to both lanes. *)
Definition _mm_set1_epi64x (a : Z) : __m128i :=
  {| lo64 := to_uint64 a; hi64 := to_uint64 a |}.

(** Bitwise exclusive-or of the 128 bits, that is of each lane. *)
Definition _mm_xor_si128 (a b : __m128i) : __m128i :=
  {| lo64 := Z.lxor (lo64 a) (lo64 b); hi64 := Z.lxor (hi64 a) (hi64 b) |}.

(** Lane-wise addition, each lane wrapping modulo 2^64. *)
Definition _mm_add_epi64 (a b : __m128i) : __m128i :=
  {| lo64 := to_uint64 (lo64 a + lo64 b); hi64 := to_uint64 (hi64 a + hi64 b) |}.

(** Lane-wise subtraction, each lane wrapping modulo 2^64. *)
Definition _mm_sub_epi64 (a b : __m128i) : __m128i :=
  {| lo64 := to_uint64 (lo64 a - lo64 b); hi64 := to_uint64 (hi64 a - hi64 b) |}.

(** The low lane, as a signed 64-bit integer. *)
Definition _mm_cvtsi128_si64 (a : __m128i) : Z := to_int64 (lo64 a).

(** Both lanes are 64-bit words. *)
Definition lanes_in_range (a : __m128i) : Prop :=
  0 <= lo64 a < 2 ^ 64 /\ 0 <= hi64 a < 2 ^ 64.

(** ** Arithmetic types and their values *)

Inductive IntWidth : Type := W8 | W16 | W32 | W64.

Definition bits (w : IntWidth) : Z :=
  match w with W8 => 8 | W16 => 16 | W32 => 32 | W64 => 64 end.

(** The types accepted by [std::is_arithmetic]: [bool], the integer types
    by signedness and width, [float] and [double]. *)
Inductive ArithType : Type :=
| TBool
| TInt (is_signed : bool) (w : IntWidth)
| TFloat
| TDouble.

(** Types in general: the arithmetic ones and some that are not. *)
Inductive CppType : Type :=
| Arithmetic (a : ArithType)
| Pointer
| Enumeration
| ClassType.

(** [std::is_integral]: [bool] and the integer types. *)
Definition is_integral (T : ArithType) : bool :=
  match T with
  | TBool | TInt _ _ => true
  | TFloat | TDouble => false
  end.

(** [std::is_arithmetic<T>::value] *)
Definition is_arithmetic (T : CppType) : bool :=
  match T with
  | Arithmetic _ => true
  | _ => false
  end.

Inductive Value : Type :=
| VBool (b : bool)
| VInt (z : Z)
| VFloating (f : spec_float).

(** Precision and exponent bound of the two binary formats. *)
Definition float_prec : Z := 24.
Definition float_emax : Z := 128.
Definition double_prec : Z := 53.
Definition double_emax : Z := 1024.

(** Largest finite magnitude of a format, [(2^prec - 1) * 2^(emax - prec)]. *)
Definition max_finite (prec emax : Z) : Z := (2 ^ prec - 1) * 2 ^ (emax - prec).

(** Integer range of a type. *)
Definition int_min (is_signed : bool) (w : IntWidth) : Z :=
  if is_signed then - 2 ^ (bits w - 1) else 0.
Definition int_max (is_signed : bool) (w : IntWidth) : Z :=
  if is_signed then 2 ^ (bits w - 1) - 1 else 2 ^ bits w - 1.

(** [has_type T v]: [v] is a value of type [T]. *)
Definition has_type (T : ArithType) (v : Value) : Prop :=
  match T, v with
  | TBool, VBool _ => True
  | TInt s w, VInt z => int_min s w <= z <= int_max s w
  | TFloat, VFloating f => valid_binary float_prec float_emax f = true
  | TDouble, VFloating f => valid_binary double_prec double_emax f = true
  | _, _ => False
  end.

(** Conversion of an integer to a signed type of width [w]: the value
    congruent modulo 2^w that lies in the type's range. *)
Definition wrap_signed (w : IntWidth) (z : Z) : Z :=
  let u := z mod 2 ^ bits w in
  if u <? 2 ^ (bits w - 1) then u else u - 2 ^ bits w.

(** Conversion of an integer to a floating format: the integer itself when
    it is representable, its rounding to nearest (ties to even) otherwise;
    the conversion is undefined ([None]) outside the finite range. *)
Definition int_to_floating (prec emax : Z) (z : Z) : option Value :=
  if Z.abs z <=? max_finite prec emax
  then Some (VFloating (binary_normalize prec emax z 0 false))
  else None.

(** [static_cast<T>(z)] for an integer [z] (given by its value). *)
Definition static_cast_to (T : ArithType) (z : Z) : option Value :=
  match T with
  | TBool => Some (VBool (negb (z =? 0)))
  | TInt false w => Some (VInt (z mod 2 ^ bits w))
  | TInt true w => Some (VInt (wrap_signed w z))
  | TFloat => int_to_floating float_prec float_emax z
  | TDouble => int_to_floating double_prec double_emax z
  end.

(** Truncation toward zero of the magnitude [m * 2^e]. *)
Definition trunc_magnitude (m : positive) (e : Z) : Z :=
  if 0 <=? e then Z.pos m * 2 ^ e else Z.pos m / 2 ^ (- e).

(** The integer obtained from a floating-point value by discarding its
    fractional part; none for infinities and NaN. *)
Definition truncate (f : spec_float) : option Z :=
  match f with
  | S754_zero _ => Some 0
  | S754_finite s m e =>
      Some (if s then - trunc_magnitude m e else trunc_magnitude m e)
  | _ => None
  end.

(** [static_cast<uint64_t>(value)]: modular for integers; for a
    floating-point value the fractional part is discarded, and the
    conversion is undefined ([None]) when the truncated value is not a
    [uint64_t] (negative, 2^64 or more, infinite or NaN). *)
Definition static_cast_uint64 (v : Value) : option Z :=
  match v with
  | VBool b => Some (if b then 1 else 0)
  | VInt z => Some (to_uint64 z)
  | VFloating f =>
      match truncate f with
      | Some t => if (0 <=? t) && (t <? 2 ^ 64) then Some t else None
      | None => None
      end
  end.

(** [represents_integer f n]: the floating-point value [f] is the integer
    [n], with no fractional part. *)
Definition represents_integer (f : spec_float) (n : Z) : Prop :=
  match f with
  | S754_zero _ => n = 0
  | S754_finite s m e =>
      e <= 0 /\ Z.pos m = (if s then - n else n) * 2 ^ (- e)
  | _ => False
  end.

(** The [double] literals 3.14 (0x40091EB851EB851F) and 3.0. *)
Definition double_3_14 : spec_float := S754_finite false 7070651414971679 (-51).
Definition double_3 : spec_float := S754_finite false 6755399441055744 (-51).

(** The [double] literal -3.14 (0xC0091EB851EB851F). *)
Definition double_minus_3_14 : spec_float :=
  S754_finite true 7070651414971679 (-51).

(** The reading of a 64-bit pattern as the [double] with that object
    representation (IEEE 754 binary64: sign, 11 exponent bits, 52 fraction
    bits). This is what reinterpreting stored bits as a [double] would
    give; it is compared with what [Get] returns. *)
Definition bits_as_double (b : Z) : spec_float :=
  let sign := Z.testbit b 63 in
  let biased := (b / 2 ^ 52) mod 2 ^ 11 in
  let fraction := b mod 2 ^ 52 in
  if biased =? 0 then
    match fraction with
    | Z.pos m => S754_finite sign m (-1074)
    | _ => S754_zero sign
    end
  else if biased =? 2047 then
    if fraction =? 0 then S754_infinity sign else S754_nan
  else
    match fraction + 2 ^ 52 with
    | Z.pos m => S754_finite sign m (biased - 1075)
    | _ => S754_nan
    end.

(** ** The object and its member functions *)

(** The only data member of the class. *)
Record XorConstant : Type := { m_encryptedData : __m128i }.

(** Member functions read and write the object they are called on, and a
    conversion inside them may be undefined: a state monad with failure. *)
Definition M (A : Type) : Type := XorConstant -> option (A * XorConstant).

Definition ret {A : Type} (a : A) : M A := fun this => Some (a, this).

Definition bind {A B : Type} (c : M A) (k : A -> M B) : M B :=
  fun this =>
    match c this with
    | Some (a, this') => k a this'
    | None => None
    end.

Definition lift {A : Type} (o : option A) : M A :=
  fun this =>
    match o with
    | Some a => Some (a, this)
    | None => None
    end.

Definition read_m_encryptedData : M __m128i :=
  fun this => Some (m_encryptedData this, this).

Definition write_m_encryptedData (d : __m128i) : M unit :=
  fun _ => Some (tt, {| m_encryptedData := d |}).

Declare Scope member_scope.
Delimit Scope member_scope with member.
Notation "x <- c ;; k" := (bind c (fun x => k))
  (at level 61, c at next level, right associativity) : member_scope.
Notation "c ;; k" := (bind c (fun _ => k))
  (at level 61, right associativity) : member_scope.

Section Members.

(** The static members [XorKey] and [AddKey] (their initialisers are in
    section [Keys] below) and the template parameters [T] and
    [ConstantValue]. *)
Variables XorKey AddKey : Z.
Variable T : ArithType.
Variable ConstantValue : Z.

Definition EncryptData (data : Z) : M unit :=
  let result := _mm_set1_epi64x data in
  let result := _mm_xor_si128 result (_mm_set1_epi64x XorKey) in
  let result := _mm_add_epi64 result (_mm_set1_epi64x AddKey) in
  write_m_encryptedData result.

Definition DecryptData : M Z :=
  (result <- read_m_encryptedData ;;
   let result := _mm_sub_epi64 result (_mm_set1_epi64x AddKey) in
   let result := _mm_xor_si128 result (_mm_set1_epi64x XorKey) in
   ret (to_uint64 (_mm_cvtsi128_si64 result)))%member.

Definition Get : M Value :=
  (d <- read_m_encryptedData ;;
   lift (static_cast_to T (_mm_cvtsi128_si64 d)))%member.

Definition GetCrypt : M Value :=
  (d <- DecryptData ;;
   lift (static_cast_to T d))%member.

(** The constructor body. *)
Definition XorConstant_ctor : M unit := EncryptData ConstantValue.

(** Construction: the default member initialiser [m_encryptedData = {}],
    then the constructor body. *)
Definition construct : option XorConstant :=
  match XorConstant_ctor {| m_encryptedData := zero_m128i |} with
  | Some (_, this) => Some this
  | None => None
  end.

(** A caller's reads of one object: any sequence of accessor calls. *)
Inductive Accessor : Type := CallGet | CallGetCrypt.

Definition call (a : Accessor) : M Value :=
  match a with
  | CallGet => Get
  | CallGetCrypt => GetCrypt
  end.

Fixpoint calls (l : list Accessor) : M (list Value) :=
  match l with
  | [] => ret []
  | a :: l' =>
      (v <- call a ;;
       vs <- calls l' ;;
       ret (v :: vs))%member
  end.

End Members.

(** ** Keys, class template and construction entry points *)

(** Outcome of compiling a use of the class: the two diagnostics that the
    modelled code can meet, or a result. *)
Inductive CompileError : Type :=
| StaticAssertFailed (message : string)
| NotAConstantExpression.

Definition static_assert (c : bool) (message : string) : CompileError + unit :=
  if c then inr tt else inl (StaticAssertFailed message).

(** The message of the class's [static_assert]. *)
Definition static_assert_message : string :=
  "Type T must be either an integral or a floating-point type.".

(** Where the macro is expanded. *)
Record CallSite : Type := { __FILE__ : string; __LINE__ : Z }.

(** [__LINE__] inside XorConstant.hpp is the line of the header on which it
    is written: 82 in the initialiser of [XorKey], 83 in that of [AddKey]. *)
Definition LINE_of_XorKey : Z := 82.
Definition LINE_of_AddKey : Z := 83.

Section Keys.

(** [hash::key64<S>()], [hash::fnv64<S>(str)] and the build-provided
    [UNIQUE_SEED64] come from FnvHash.hpp and the build, which are not
    among the sources: they are taken as parameters. *)
Variable key64 : Z -> Z.
Variable fnv64 : Z -> string -> Z.
Variable UNIQUE_SEED64 : Z.

(** [constexpr static uint64_t XorKey = hash::key64<Seed - __LINE__>();] *)
Definition XorKey (Seed : Z) : Z :=
  to_uint64 (key64 (to_uint64 (Seed - LINE_of_XorKey))).

(** [constexpr static uint64_t AddKey = hash::key64<Seed + __LINE__>();] *)
Definition AddKey (Seed : Z) : Z :=
  to_uint64 (key64 (to_uint64 (Seed + LINE_of_AddKey))).

(** The implicit instantiation and construction of
    [XorConstant<T, ConstantValue, Seed>()]. *)
Definition XorConstant_new (T : CppType) (ConstantValue Seed : Z)
  : CompileError + XorConstant :=
  match static_assert (is_arithmetic T) static_assert_message with
  | inl e => inl e
  | inr _ =>
      match construct (XorKey Seed) (AddKey Seed) ConstantValue with
      | Some this => inr this
      | None => inl NotAConstantExpression
      end
  end.

Definition MakeXorConstantImpl (T : CppType) (ConstantValue Seed : Z)
  : CompileError + XorConstant :=
  XorConstant_new T ConstantValue Seed.

(** The seed the macro passes: [hash::fnv64<UNIQUE_SEED64>(__FILE__)]. *)
Definition macro_Seed (site : CallSite) : Z :=
  to_uint64 (fnv64 UNIQUE_SEED64 (__FILE__ site)).

(** [MakeXorConstant(value)] expanded at [site], for a [value] of type [T]
    ([decltype(value)]). The template argument
    [static_cast<uint64_t>(value)] has to be a constant expression. *)
Definition MakeXorConstant (site : CallSite) (T : CppType) (value : Value)
  : CompileError + XorConstant :=
  match static_cast_uint64 value with
  | Some ConstantValue =>
      MakeXorConstantImpl T ConstantValue (macro_Seed site)
  | None => inl NotAConstantExpression
  end.

End Keys.

(** ** Stand-ins for the hash functions, used to evaluate examples *)

Definition fnv_offset_basis : Z := 14695981039346656037.
Definition fnv_prime : Z := 1099511628211.

(** The inverse of [fnv_prime] modulo 2^64. *)
Definition fnv_prime_inverse : Z := 14886173955864302971.

(** Modelled from the spec: [hash::key64] of FnvHash.hpp is missing; the
    spec asks only for a deterministic 64-bit hash [deriveKey(seed)]. This
    one is a single FNV-1a round over the whole 64-bit seed. *)
Definition sample_key64 (s : Z) : Z :=
  to_uint64 (Z.lxor fnv_offset_basis (to_uint64 s) * fnv_prime).

Definition ascii_code (c : Ascii.ascii) : Z := Z.of_N (Ascii.N_of_ascii c).

Fixpoint fnv1a (h : Z) (s : string) : Z :=
  match s with
  | EmptyString => h
  | String c s' => fnv1a (to_uint64 (Z.lxor h (ascii_code c) * fnv_prime)) s'
  end.

(** Modelled from the spec: [hash::fnv64] of FnvHash.hpp is missing; the
    spec describes the seed as a hash of the source file path combined with
    a build-wide random seed. This one is FNV-1a over the characters of the
    path, started from the offset basis mixed with the build seed. *)
Definition sample_fnv64 (seed : Z) (s : string) : Z :=
  fnv1a (to_uint64 (Z.lxor fnv_offset_basis (to_uint64 seed))) s.

Definition sample_UNIQUE_SEED64 : Z := 4369.

(** Two expansions of the macro in one file, on lines 10 and 20. *)
Definition site_line_10 : CallSite := {| __FILE__ := "main.cpp"; __LINE__ := 10 |}.
Definition site_line_20 : CallSite := {| __FILE__ := "main.cpp"; __LINE__ := 20 |}.

(** The object built for the constant 42 with the seed 0x1111 under the
    stand-in key derivation. *)
Definition stored_42 : XorConstant :=
  {| m_encryptedData :=
       {| lo64 := 6838447311148356343; hi64 := 6838447311148356343 |} |}.


(** ** The transform on one word *)

(** The transform of one 64-bit word and its inverse, as [EncryptData] and
    [DecryptData] apply them to the low lane. *)
Definition encrypt_word (xorKey addKey v : Z) : Z :=
  to_uint64 (Z.lxor (to_uint64 v) (to_uint64 xorKey) + to_uint64 addKey).

Definition decrypt_word (xorKey addKey s : Z) : Z :=
  Z.lxor (to_uint64 (s - to_uint64 addKey)) (to_uint64 xorKey).

(** ** Facts on 64-bit words *)

Lemma to_uint64_range (z : Z) : 0 <= to_uint64 z < 2 ^ 64.
Proof. unfold to_uint64. apply Z.mod_pos_bound. reflexivity. Qed.

Lemma to_uint64_small (z : Z) : 0 <= z < 2 ^ 64 -> to_uint64 z = z.
Proof. intros H. unfold to_uint64. apply Z.mod_small. exact H. Qed.

Lemma to_uint64_idem (z : Z) : to_uint64 (to_uint64 z) = to_uint64 z.
Proof. apply to_uint64_small, to_uint64_range. Qed.

Lemma to_uint64_to_int64 (z : Z) : to_uint64 (to_int64 z) = to_uint64 z.
Proof.
  unfold to_int64, to_uint64.
  destruct (z mod 2 ^ 64 <? 2 ^ 63).
  - apply Z.mod_mod. discriminate.
  - rewrite Zminus_mod, Z.mod_same, Z.sub_0_r by discriminate.
    rewrite !Z.mod_mod by discriminate. reflexivity.
Qed.

Lemma to_int64_range (z : Z) : - 2 ^ 63 <= to_int64 z < 2 ^ 63.
Proof.
  unfold to_int64.
  pose proof (Z.mod_pos_bound z (2 ^ 64) eq_refl) as H.
  destruct (Z.ltb_spec (z mod 2 ^ 64) (2 ^ 63)); lia.
Qed.

(** Exclusive-or commutes with taking the low [n] bits. *)
Lemma lxor_mod_pow2 (a b n : Z) :
  0 <= n -> Z.lxor (a mod 2 ^ n) (b mod 2 ^ n) = Z.lxor a b mod 2 ^ n.
Proof.
  intros Hn. apply Z.bits_inj'. intros i Hi.
  rewrite Z.lxor_spec.
  destruct (Z.ltb_spec i n).
  - rewrite !Z.mod_pow2_bits_low, Z.lxor_spec by lia. reflexivity.
  - rewrite !Z.mod_pow2_bits_high by lia. reflexivity.
Qed.

Lemma lxor_range (a b n : Z) :
  0 <= n -> 0 <= a < 2 ^ n -> 0 <= b < 2 ^ n -> 0 <= Z.lxor a b < 2 ^ n.
Proof.
  intros Hn Ha Hb.
  rewrite <- (Z.mod_small a (2 ^ n)), <- (Z.mod_small b (2 ^ n)) by assumption.
  rewrite lxor_mod_pow2 by assumption.
  apply Z.mod_pos_bound. apply Z.pow_pos_nonneg; lia.
Qed.

Lemma lxor_uint64_range (a b : Z) :
  0 <= Z.lxor (to_uint64 a) (to_uint64 b) < 2 ^ 64.
Proof. apply lxor_range; try apply to_uint64_range. discriminate. Qed.

Lemma lxor_cancel_r (a k : Z) : Z.lxor (Z.lxor a k) k = a.
Proof. rewrite Z.lxor_assoc, Z.lxor_nilpotent, Z.lxor_0_r. reflexivity. Qed.

(** Adding a key and subtracting it again, both modulo 2^64. *)
Lemma add_sub_uint64 (a k : Z) :
  to_uint64 (to_uint64 (a + k) - k) = to_uint64 a.
Proof.
  unfold to_uint64. rewrite Zminus_mod_idemp_l. f_equal. lia.
Qed.

Lemma sub_add_uint64 (a k : Z) :
  to_uint64 (to_uint64 (a - k) + k) = to_uint64 a.
Proof.
  unfold to_uint64. rewrite Zplus_mod_idemp_l. f_equal. lia.
Qed.

(** ** What the member functions compute *)

Lemma EncryptData_spec (XorKey AddKey data : Z) (this : XorConstant) :
  EncryptData XorKey AddKey data this =
  Some (tt, {| m_encryptedData :=
                 {| lo64 := encrypt_word XorKey AddKey data;
                    hi64 := encrypt_word XorKey AddKey data |} |}).
Proof. reflexivity. Qed.

Lemma construct_spec (XorKey AddKey ConstantValue : Z) :
  construct XorKey AddKey ConstantValue =
  Some {| m_encryptedData :=
            {| lo64 := encrypt_word XorKey AddKey ConstantValue;
               hi64 := encrypt_word XorKey AddKey ConstantValue |} |}.
Proof. reflexivity. Qed.

Lemma DecryptData_spec (XorKey AddKey : Z) (this : XorConstant) :
  DecryptData XorKey AddKey this =
  Some (decrypt_word XorKey AddKey (lo64 (m_encryptedData this)), this).
Proof.
  unfold DecryptData, bind, read_m_encryptedData, ret, _mm_cvtsi128_si64.
  cbn [_mm_sub_epi64 _mm_xor_si128 _mm_set1_epi64x lo64 hi64].
  rewrite to_uint64_to_int64.
  rewrite to_uint64_small by apply lxor_uint64_range.
  reflexivity.
Qed.

Lemma decrypt_encrypt_word (xorKey addKey v : Z) :
  decrypt_word xorKey addKey (encrypt_word xorKey addKey v) = to_uint64 v.
Proof.
  unfold decrypt_word, encrypt_word.
  rewrite add_sub_uint64.
  rewrite to_uint64_small by apply lxor_uint64_range.
  apply lxor_cancel_r.
Qed.

Lemma encrypt_decrypt_word (xorKey addKey s : Z) :
  encrypt_word xorKey addKey (decrypt_word xorKey addKey s) = to_uint64 s.
Proof.
  unfold decrypt_word, encrypt_word.
  rewrite (to_uint64_small (Z.lxor _ _)) by apply lxor_uint64_range.
  rewrite lxor_cancel_r.
  apply sub_add_uint64.
Qed.

Lemma decrypt_word_range (xorKey addKey s : Z) :
  0 <= decrypt_word xorKey addKey s < 2 ^ 64.
Proof. apply lxor_uint64_range. Qed.

Lemma encrypt_word_range (xorKey addKey v : Z) :
  0 <= encrypt_word xorKey addKey v < 2 ^ 64.
Proof. apply to_uint64_range. Qed.

Lemma Get_spec (T : ArithType) (this : XorConstant) :
  Get T this =
  lift (static_cast_to T (to_int64 (lo64 (m_encryptedData this)))) this.
Proof. reflexivity. Qed.

Lemma GetCrypt_spec (XorKey AddKey : Z) (T : ArithType) (this : XorConstant) :
  GetCrypt XorKey AddKey T this =
  lift (static_cast_to T
          (decrypt_word XorKey AddKey (lo64 (m_encryptedData this)))) this.
Proof.
  unfold GetCrypt, bind. rewrite DecryptData_spec. reflexivity.
Qed.

(** The conversion of a 64-bit integer, signed or unsigned, to an
    arithmetic type is always defined: both floating formats reach beyond
    2^64. *)
Lemma static_cast_to_defined (T : ArithType) (z : Z) :
  - 2 ^ 64 < z < 2 ^ 64 -> exists v, static_cast_to T z = Some v.
Proof.
  intros Hz.
  assert (Hf : 2 ^ 64 <= max_finite float_prec float_emax)
    by (vm_compute; discriminate).
  assert (Hd : 2 ^ 64 <= max_finite double_prec double_emax)
    by (vm_compute; discriminate).
  destruct T as [| [|] w | |]; cbn [static_cast_to]; eauto;
    unfold int_to_floating;
    match goal with
    | |- context [?a <=? ?b] => destruct (Z.leb_spec a b); [eauto | lia]
    end.
Qed.

Lemma Get_defined (T : ArithType) (this : XorConstant) :
  exists v, Get T this = Some (v, this).
Proof.
  rewrite Get_spec.
  destruct (static_cast_to_defined T (to_int64 (lo64 (m_encryptedData this))))
    as [v Hv].
  - pose proof (to_int64_range (lo64 (m_encryptedData this))). lia.
  - exists v. unfold lift. rewrite Hv. reflexivity.
Qed.

Lemma GetCrypt_defined (XorKey AddKey : Z) (T : ArithType) (this : XorConstant) :
  exists v, GetCrypt XorKey AddKey T this = Some (v, this).
Proof.
  rewrite GetCrypt_spec.
  destruct (static_cast_to_defined T
              (decrypt_word XorKey AddKey (lo64 (m_encryptedData this))))
    as [v Hv].
  - pose proof (decrypt_word_range XorKey AddKey (lo64 (m_encryptedData this))).
    lia.
  - exists v. unfold lift. rewrite Hv. reflexivity.
Qed.

(** ** Conversions between a value and the 64-bit template argument *)

Lemma mod_mod_pow2 (z : Z) (w : IntWidth) :
  (z mod 2 ^ 64) mod 2 ^ bits w = z mod 2 ^ bits w.
Proof.
  apply Z.mod_mod_divide.
  destruct w; cbn [bits].
  - exists (2 ^ 56). reflexivity.
  - exists (2 ^ 48). reflexivity.
  - exists (2 ^ 32). reflexivity.
  - exists 1. reflexivity.
Qed.

Lemma wrap_signed_mod (w : IntWidth) (z : Z) :
  wrap_signed w (z mod 2 ^ 64) = wrap_signed w z.
Proof. unfold wrap_signed. rewrite mod_mod_pow2. reflexivity. Qed.

Lemma wrap_signed_in_range (w : IntWidth) (z : Z) :
  - 2 ^ (bits w - 1) <= z <= 2 ^ (bits w - 1) - 1 -> wrap_signed w z = z.
Proof.
  unfold wrap_signed. intros H.
  destruct w; cbn [bits] in *;
    match goal with
    | |- context [z mod ?m] =>
        let m' := eval cbv in m in change m with m' in *
    end;
    match goal with
    | H : context [2 ^ ?k] |- _ =>
        let p := eval cbv in (2 ^ k) in change (2 ^ k) with p in *
    end;
    match goal with
    | |- context [?a <? ?b] => destruct (Z.ltb_spec a b)
    end;
    Z.div_mod_to_equations; lia.
Qed.

(** A value of an integral type survives the conversion to [uint64_t] and
    back to its type. *)
Lemma integral_cast_round_trip (T : ArithType) (x : Value) :
  is_integral T = true -> has_type T x ->
  exists cv, static_cast_uint64 x = Some cv /\ 0 <= cv < 2 ^ 64 /\
             static_cast_to T cv = Some x.
Proof.
  intros HT Hx.
  destruct T as [| s w | |]; try discriminate; destruct x as [b | z | f];
    cbn in Hx; try contradiction.
  - exists (if b then 1 else 0). destruct b; repeat split; cbn; lia.
  - exists (to_uint64 z). split; [reflexivity|]. split; [apply to_uint64_range|].
    unfold static_cast_to, to_uint64. destruct s.
    + rewrite wrap_signed_mod, wrap_signed_in_range; [reflexivity|].
      unfold int_min, int_max in Hx. exact Hx.
    + rewrite mod_mod_pow2. rewrite Z.mod_small; [reflexivity|].
      unfold int_min, int_max in Hx. lia.
Qed.

(** ** The stand-in key derivation is injective on 64-bit words *)

Lemma mul_fnv_prime_inj (x y : Z) :
  to_uint64 (x * fnv_prime) = to_uint64 (y * fnv_prime) ->
  to_uint64 x = to_uint64 y.
Proof.
  unfold to_uint64. intros H.
  assert (Hq : forall a,
             ((a * fnv_prime) mod 2 ^ 64 * fnv_prime_inverse) mod 2 ^ 64
             = a mod 2 ^ 64).
  { intros a. rewrite Z.mul_mod_idemp_l by discriminate.
    rewrite <- Z.mul_assoc, <- Z.mul_mod_idemp_r by discriminate.
    change ((fnv_prime * fnv_prime_inverse) mod 2 ^ 64) with 1.
    rewrite Z.mul_1_r. reflexivity. }
  rewrite <- (Hq x), <- (Hq y), H. reflexivity.
Qed.

Lemma sample_key64_range (s : Z) : 0 <= sample_key64 s < 2 ^ 64.
Proof. apply to_uint64_range. Qed.

Lemma sample_key64_inj (a b : Z) :
  sample_key64 a = sample_key64 b -> to_uint64 a = to_uint64 b.
Proof.
  unfold sample_key64. intros H. apply mul_fnv_prime_inj in H.
  assert (Hb : 0 <= fnv_offset_basis < 2 ^ 64) by (vm_compute; split; congruence).
  rewrite (to_uint64_small (Z.lxor _ (to_uint64 a))),
    (to_uint64_small (Z.lxor _ (to_uint64 b))) in H
    by (apply lxor_range; [discriminate | exact Hb | apply to_uint64_range]).
  apply (f_equal (Z.lxor fnv_offset_basis)) in H.
  rewrite <- !Z.lxor_assoc, Z.lxor_nilpotent, !Z.lxor_0_l in H.
  exact H.
Qed.

Lemma trunc_magnitude_nonneg (m : positive) (e : Z) : 0 <= trunc_magnitude m e.
Proof.
  unfold trunc_magnitude. destruct (Z.leb_spec 0 e).
  - apply Z.mul_nonneg_nonneg; [lia | apply Z.pow_nonneg; lia].
  - apply Z.div_pos; [lia | apply Z.pow_pos_nonneg; lia].
Qed.

(** [trunc_magnitude m e] is the integer part of [m * 2^e]: the product
    itself for [0 <= e], and for [e < 0] the integer [t] with
    [t <= m / 2^(-e) < t + 1]. *)
Lemma trunc_magnitude_spec (m : positive) (e : Z) :
  (0 <= e -> trunc_magnitude m e = Z.pos m * 2 ^ e) /\
  (e < 0 ->
   trunc_magnitude m e * 2 ^ (- e) <= Z.pos m
   < (trunc_magnitude m e + 1) * 2 ^ (- e)).
Proof.
  unfold trunc_magnitude. split; intros He.
  - destruct (Z.leb_spec 0 e); [reflexivity | lia].
  - destruct (Z.leb_spec 0 e); [lia|].
    assert (Hp : 0 < 2 ^ (- e)) by (apply Z.pow_pos_nonneg; lia).
    pose proof (Z.div_mod (Z.pos m) (2 ^ (- e)) ltac:(lia)) as Hdm.
    pose proof (Z.mod_pos_bound (Z.pos m) (2 ^ (- e)) Hp) as Hb.
    nia.
Qed.

Lemma static_cast_uint64_range (v : Value) (cv : Z) :
  static_cast_uint64 v = Some cv -> 0 <= cv < 2 ^ 64.
Proof.
  destruct v as [b | z | f]; cbn [static_cast_uint64].
  - intros [= <-]. destruct b; lia.
  - intros [= <-]. apply to_uint64_range.
  - destruct (truncate f) as [t|]; [| discriminate].
    destruct (Z.leb_spec 0 t); destruct (Z.ltb_spec t (2 ^ 64));
      cbn [andb]; try discriminate.
    intros [= <-]. lia.
Qed.

(** What the macro builds, and what [GetCrypt] returns on it. *)
Lemma MakeXorConstant_spec
  (key64 : Z -> Z) (fnv64 : Z -> string -> Z) (UNIQUE_SEED64 : Z)
  (site : CallSite) (T : ArithType) (value : Value) (cv : Z) :
  static_cast_uint64 value = Some cv ->
  let Seed := macro_Seed fnv64 UNIQUE_SEED64 site in
  exists this,
    MakeXorConstant key64 fnv64 UNIQUE_SEED64 site (Arithmetic T) value
    = inr this /\
    lo64 (m_encryptedData this)
    = encrypt_word (XorKey key64 Seed) (AddKey key64 Seed) cv /\
    GetCrypt (XorKey key64 Seed) (AddKey key64 Seed) T this
    = lift (static_cast_to T cv) this.
Proof.
  intros Hcv Seed.
  unfold MakeXorConstant, MakeXorConstantImpl, XorConstant_new.
  rewrite Hcv. cbn [is_arithmetic static_assert]. fold Seed.
  rewrite construct_spec.
  eexists. split; [reflexivity|]. cbn [m_encryptedData lo64].
  split; [reflexivity|].
  rewrite GetCrypt_spec. cbn [m_encryptedData lo64].
  rewrite decrypt_encrypt_word.
  rewrite to_uint64_small by (eapply static_cast_uint64_range; eassumption).
  reflexivity.
Qed.

Lemma to_int64_mod_pow2 (z : Z) (w : IntWidth) :
  to_int64 z mod 2 ^ bits w = z mod 2 ^ bits w.
Proof.
  rewrite <- (mod_mod_pow2 (to_int64 z)), <- (mod_mod_pow2 z).
  change (to_int64 z mod 2 ^ 64) with (to_uint64 (to_int64 z)).
  rewrite to_uint64_to_int64. reflexivity.
Qed.


(** Accessor calls return their value and leave the object as it is. *)
Lemma call_defined (XorKey AddKey : Z) (T : ArithType) (a : Accessor)
  (this : XorConstant) :
  exists v, call XorKey AddKey T a this = Some (v, this).
Proof.
  destruct a; cbn [call]; [apply Get_defined | apply GetCrypt_defined].
Qed.

(** ** A concrete scenario

    The [int] constant 42 with the seed 0x1111: the stored word differs
    from 42, [GetCrypt] returns 42, and [Get] returns the same transformed
    value each time it is called. *)
Example scenario_42 :
  XorConstant_new sample_key64 (Arithmetic (TInt true W32)) 42 4369
  = inr stored_42 /\
  Get (TInt true W32) stored_42 = Some (VInt 205066999, stored_42) /\
  GetCrypt (XorKey sample_key64 4369) (AddKey sample_key64 4369)
    (TInt true W32) stored_42 = Some (VInt 42, stored_42) /\
  calls (XorKey sample_key64 4369) (AddKey sample_key64 4369) (TInt true W32)
    [CallGet; CallGet] stored_42
  = Some ([VInt 205066999; VInt 205066999], stored_42).
Proof. repeat split; vm_compute; reflexivity. Qed.

Example bits_of_double_3_14 : bits_as_double 4614253070214989087 = double_3_14.
Proof. reflexivity. Qed.

(** ** The round-trip law *)

(** X8. Round trip of the transform on 64-bit words. For every 64-bit
    word [v] and every pair of 64-bit keys, the instance constructed from
    [v] exists, its [DecryptData] returns [v] and leaves the object as it
    is, and [GetCrypt] returns the conversion of exactly that word to [T];
    on the words themselves, [((v XOR xorKey) + addKey mod 2^64 - addKey
    mod 2^64) XOR xorKey = v]. The transform is a bijection on 64-bit
    words: the inverse recovers [v], and every word [s] is the stored
    pattern of some constant. For an integral [T], a value [x] of [T]
    carried by [v] is returned itself. *)
Theorem word_round_trip (XorKey AddKey v : Z) (T : ArithType) :
  0 <= XorKey < 2 ^ 64 -> 0 <= AddKey < 2 ^ 64 -> 0 <= v < 2 ^ 64 ->
  (exists this,
      construct XorKey AddKey v = Some this /\
      DecryptData XorKey AddKey this = Some (v, this) /\
      GetCrypt XorKey AddKey T this = lift (static_cast_to T v) this /\
      (forall x, is_integral T = true -> has_type T x ->
                 static_cast_uint64 x = Some v ->
                 GetCrypt XorKey AddKey T this = Some (x, this))) /\
  Z.lxor (((Z.lxor v XorKey + AddKey) mod 2 ^ 64 - AddKey) mod 2 ^ 64) XorKey
  = v /\
  (forall s, 0 <= s < 2 ^ 64 ->
     exists u, 0 <= u < 2 ^ 64 /\
       construct XorKey AddKey u =
       Some {| m_encryptedData := {| lo64 := s; hi64 := s |} |}).
Proof.
  intros HX HA Hv.
  pose proof (decrypt_encrypt_word XorKey AddKey v) as Hde.
  rewrite (to_uint64_small v) in Hde by assumption.
  split; [| split].
  - eexists. split; [apply construct_spec|].
    split; [| split].
    + rewrite DecryptData_spec. cbn [m_encryptedData lo64].
      rewrite Hde. reflexivity.
    + rewrite GetCrypt_spec. cbn [m_encryptedData lo64].
      rewrite Hde. reflexivity.
    + intros x HT Hx Hcv.
      rewrite GetCrypt_spec. cbn [m_encryptedData lo64]. rewrite Hde.
      destruct (integral_cast_round_trip T x HT Hx) as [cv [H1 [_ H2]]].
      rewrite Hcv in H1. injection H1 as <-.
      unfold lift. rewrite H2. reflexivity.
  - unfold decrypt_word, encrypt_word in Hde.
    rewrite (to_uint64_small v), (to_uint64_small XorKey),
      (to_uint64_small AddKey) in Hde by assumption.
    exact Hde.
  - intros s Hs.
    exists (decrypt_word XorKey AddKey s).
    split; [apply decrypt_word_range|].
    rewrite construct_spec, encrypt_decrypt_word, to_uint64_small by assumption.
    reflexivity.
Qed.

Lemma word_round_trip_witness :
  (0 <= 51 < 2 ^ 64 /\ 0 <= 18446744073709551615 < 2 ^ 64 /\ 0 <= 42 < 2 ^ 64) /\
  (exists this,
      construct 51 18446744073709551615 42 = Some this /\
      DecryptData 51 18446744073709551615 this = Some (42, this) /\
      GetCrypt 51 18446744073709551615 (TInt true W32) this =
      lift (static_cast_to (TInt true W32) 42) this /\
      (forall x, is_integral (TInt true W32) = true ->
                 has_type (TInt true W32) x ->
                 static_cast_uint64 x = Some 42 ->
                 GetCrypt 51 18446744073709551615 (TInt true W32) this =
                 Some (x, this))) /\
  Z.lxor (((Z.lxor 42 51 + 18446744073709551615) mod 2 ^ 64
           - 18446744073709551615) mod 2 ^ 64) 51 = 42 /\
  (forall s, 0 <= s < 2 ^ 64 ->
     exists u, 0 <= u < 2 ^ 64 /\
       construct 51 18446744073709551615 u =
       Some {| m_encryptedData := {| lo64 := s; hi64 := s |} |}).
Proof.
  split; [lia|].
  apply (word_round_trip 51 18446744073709551615 42 (TInt true W32)); lia.
Defined.

(** ** Construction *)

(** C2, as stated, fails: the two keys are not derived with one line
    marker. With the seed 4369 and the stand-in key derivation, no
    [lineMarker] gives both [XorKey = key64(Seed - lineMarker)] and
    [AddKey = key64(Seed + lineMarker)]: the first needs 82, the second
    83. *)
Lemma C2_counterexample :
  ~ exists lineMarker : Z,
      XorKey sample_key64 4369
      = to_uint64 (sample_key64 (to_uint64 (4369 - lineMarker))) /\
      AddKey sample_key64 4369
      = to_uint64 (sample_key64 (to_uint64 (4369 + lineMarker))).
Proof.
  intros [L [HX HA]].
  unfold XorKey, AddKey, LINE_of_XorKey, LINE_of_AddKey in *.
  rewrite !(to_uint64_small (sample_key64 _)) in HX by apply sample_key64_range.
  rewrite !(to_uint64_small (sample_key64 _)) in HA by apply sample_key64_range.
  apply sample_key64_inj in HX. apply sample_key64_inj in HA.
  rewrite !to_uint64_idem in HX, HA.
  unfold to_uint64 in HX, HA.
  change (2 ^ 64) with 18446744073709551616 in *.
  Z.div_mod_to_equations. lia.
Qed.

(** C2, amended. For every 64-bit value, every seed and every key
    derivation, construction succeeds and stores
    [(value XOR xorKey) + addKey] modulo 2^64 in both 64-bit halves of the
    cell, where [xorKey = key64(Seed - 82)] and [addKey = key64(Seed + 83)]
    (82 and 83 being the header lines of the two key declarations, the
    arguments taken modulo 2^64); the accessors depend on the low half
    only. *)
Theorem C2_construction_effect
  (key64 : Z -> Z) (T : ArithType) (ConstantValue Seed : Z) :
  0 <= ConstantValue < 2 ^ 64 ->
  XorKey key64 Seed = to_uint64 (key64 (to_uint64 (Seed - 82))) /\
  AddKey key64 Seed = to_uint64 (key64 (to_uint64 (Seed + 83))) /\
  exists this,
    XorConstant_new key64 (Arithmetic T) ConstantValue Seed = inr this /\
    lo64 (m_encryptedData this)
    = (Z.lxor ConstantValue (XorKey key64 Seed) + AddKey key64 Seed) mod 2 ^ 64 /\
    hi64 (m_encryptedData this) = lo64 (m_encryptedData this) /\
    forall that : XorConstant,
      lo64 (m_encryptedData that) = lo64 (m_encryptedData this) ->
      option_map fst (Get T that) = option_map fst (Get T this) /\
      option_map fst (GetCrypt (XorKey key64 Seed) (AddKey key64 Seed) T that)
      = option_map fst (GetCrypt (XorKey key64 Seed) (AddKey key64 Seed) T this).
Proof.
  intros Hv.
  split; [reflexivity|]. split; [reflexivity|].
  unfold XorConstant_new. cbn [is_arithmetic static_assert].
  rewrite construct_spec.
  eexists. split; [reflexivity|]. cbn [m_encryptedData lo64 hi64].
  split; [| split; [reflexivity|]].
  - unfold encrypt_word.
    rewrite (to_uint64_small ConstantValue) by assumption.
    rewrite (to_uint64_small (XorKey _ _)), (to_uint64_small (AddKey _ _))
      by apply to_uint64_range.
    reflexivity.
  - intros that Hlo.
    rewrite !Get_spec, !GetCrypt_spec, Hlo. cbn [m_encryptedData lo64].
    split.
    + destruct (static_cast_to T (to_int64 _)); reflexivity.
    + destruct (static_cast_to T (decrypt_word _ _ _)); reflexivity.
Qed.

Lemma C2_construction_effect_witness :
  0 <= 42 < 2 ^ 64 /\
  XorKey sample_key64 4369 = to_uint64 (sample_key64 (to_uint64 (4369 - 82))) /\
  AddKey sample_key64 4369 = to_uint64 (sample_key64 (to_uint64 (4369 + 83))) /\
  exists this,
    XorConstant_new sample_key64 (Arithmetic (TInt true W32)) 42 4369 = inr this /\
    lo64 (m_encryptedData this)
    = (Z.lxor 42 (XorKey sample_key64 4369) + AddKey sample_key64 4369) mod 2 ^ 64 /\
    hi64 (m_encryptedData this) = lo64 (m_encryptedData this) /\
    forall that : XorConstant,
      lo64 (m_encryptedData that) = lo64 (m_encryptedData this) ->
      option_map fst (Get (TInt true W32) that)
      = option_map fst (Get (TInt true W32) this) /\
      option_map fst
        (GetCrypt (XorKey sample_key64 4369) (AddKey sample_key64 4369)
           (TInt true W32) that)
      = option_map fst
          (GetCrypt (XorKey sample_key64 4369) (AddKey sample_key64 4369)
             (TInt true W32) this).
Proof.
  split; [lia|].
  apply (C2_construction_effect sample_key64 (TInt true W32) 42 4369); lia.
Defined.

(** ** Key diversification *)

(** C4, as stated, fails: the line of a declaration takes no part in the
    keys. The constant 42 declared in main.cpp on line 10 and again on
    line 20 gets the same key pair and the same stored bits. *)
Lemma C4_counterexample :
  __FILE__ site_line_10 = __FILE__ site_line_20 /\
  __LINE__ site_line_10 <> __LINE__ site_line_20 /\
  XorKey sample_key64 (macro_Seed sample_fnv64 sample_UNIQUE_SEED64 site_line_10)
  = 11005699704707297015 /\
  XorKey sample_key64 (macro_Seed sample_fnv64 sample_UNIQUE_SEED64 site_line_20)
  = 11005699704707297015 /\
  AddKey sample_key64 (macro_Seed sample_fnv64 sample_UNIQUE_SEED64 site_line_10)
  = 11005236810311820184 /\
  AddKey sample_key64 (macro_Seed sample_fnv64 sample_UNIQUE_SEED64 site_line_20)
  = 11005236810311820184 /\
  MakeXorConstant sample_key64 sample_fnv64 sample_UNIQUE_SEED64 site_line_10
    (Arithmetic (TInt true W32)) (VInt 42)
  = inr {| m_encryptedData :=
             {| lo64 := 3564192441309565557; hi64 := 3564192441309565557 |} |} /\
  MakeXorConstant sample_key64 sample_fnv64 sample_UNIQUE_SEED64 site_line_20
    (Arithmetic (TInt true W32)) (VInt 42)
  = inr {| m_encryptedData :=
             {| lo64 := 3564192441309565557; hi64 := 3564192441309565557 |} |}.
Proof.
  split; [reflexivity|]. split; [discriminate|].
  repeat split; vm_compute; reflexivity.
Qed.

(** C4, amended. The key pair is a function of the seed alone, and the
    seed the macro passes is a function of the file path and the build seed
    alone: two expansions of the macro in the same file, on whatever lines,
    get the same seed and the same key pair, and for the same value they
    produce the same outcome, hence the same stored bits. Keys are
    diversified through the seed only. *)
Theorem C4_keys_from_seed_only
  (key64 : Z -> Z) (fnv64 : Z -> string -> Z) (UNIQUE_SEED64 : Z)
  (site1 site2 : CallSite) (T : CppType) (value : Value) :
  __FILE__ site1 = __FILE__ site2 ->
  macro_Seed fnv64 UNIQUE_SEED64 site1 = macro_Seed fnv64 UNIQUE_SEED64 site2 /\
  XorKey key64 (macro_Seed fnv64 UNIQUE_SEED64 site1)
  = XorKey key64 (macro_Seed fnv64 UNIQUE_SEED64 site2) /\
  AddKey key64 (macro_Seed fnv64 UNIQUE_SEED64 site1)
  = AddKey key64 (macro_Seed fnv64 UNIQUE_SEED64 site2) /\
  MakeXorConstant key64 fnv64 UNIQUE_SEED64 site1 T value
  = MakeXorConstant key64 fnv64 UNIQUE_SEED64 site2 T value.
Proof.
  intros Hfile.
  assert (Hseed : macro_Seed fnv64 UNIQUE_SEED64 site1
                  = macro_Seed fnv64 UNIQUE_SEED64 site2).
  { unfold macro_Seed. rewrite Hfile. reflexivity. }
  unfold MakeXorConstant. rewrite Hseed. repeat split.
Qed.

Lemma C4_keys_from_seed_only_witness :
  __FILE__ site_line_10 = __FILE__ site_line_20 /\
  macro_Seed sample_fnv64 sample_UNIQUE_SEED64 site_line_10
  = macro_Seed sample_fnv64 sample_UNIQUE_SEED64 site_line_20 /\
  XorKey sample_key64 (macro_Seed sample_fnv64 sample_UNIQUE_SEED64 site_line_10)
  = XorKey sample_key64 (macro_Seed sample_fnv64 sample_UNIQUE_SEED64 site_line_20) /\
  AddKey sample_key64 (macro_Seed sample_fnv64 sample_UNIQUE_SEED64 site_line_10)
  = AddKey sample_key64 (macro_Seed sample_fnv64 sample_UNIQUE_SEED64 site_line_20) /\
  MakeXorConstant sample_key64 sample_fnv64 sample_UNIQUE_SEED64 site_line_10
    (Arithmetic (TInt true W32)) (VInt 42)
  = MakeXorConstant sample_key64 sample_fnv64 sample_UNIQUE_SEED64 site_line_20
      (Arithmetic (TInt true W32)) (VInt 42).
Proof.
  split; [reflexivity|].
  apply (C4_keys_from_seed_only sample_key64 sample_fnv64 sample_UNIQUE_SEED64
           site_line_10 site_line_20 (Arithmetic (TInt true W32)) (VInt 42)).
  reflexivity.
Defined.

(** ** The constant zero *)

(** C5, as stated, fails: with [xorKey = 1] and [addKey = 2^64 - 1], both
    nonzero, the constant 0 is stored as 0, since [(0 XOR 1) + (2^64 - 1)]
    is 2^64, which wraps to 0. *)
Lemma C5_counterexample :
  (1 <> 0 \/ 18446744073709551615 <> 0) /\
  construct 1 18446744073709551615 0
  = Some {| m_encryptedData := {| lo64 := 0; hi64 := 0 |} |}.
Proof. split; [left; discriminate | reflexivity]. Qed.

(** C5, amended. For every pair of 64-bit keys, encrypting the constant 0
    stores [(xorKey + addKey) mod 2^64]; the stored pattern is nonzero
    exactly when at least one key is nonzero and the keys do not add up to
    2^64. In particular it is nonzero when exactly one key is nonzero. *)
Theorem C5_zero_value (XorKey AddKey : Z) :
  0 <= XorKey < 2 ^ 64 -> 0 <= AddKey < 2 ^ 64 ->
  exists this,
    construct XorKey AddKey 0 = Some this /\
    lo64 (m_encryptedData this) = (XorKey + AddKey) mod 2 ^ 64 /\
    (lo64 (m_encryptedData this) <> 0 <->
     (XorKey <> 0 \/ AddKey <> 0) /\ XorKey + AddKey <> 2 ^ 64) /\
    ((XorKey = 0 /\ AddKey <> 0) \/ (XorKey <> 0 /\ AddKey = 0) ->
     lo64 (m_encryptedData this) <> 0).
Proof.
  intros HX HA.
  eexists. split; [apply construct_spec|]. cbn [m_encryptedData lo64].
  assert (He : encrypt_word XorKey AddKey 0 = (XorKey + AddKey) mod 2 ^ 64).
  { unfold encrypt_word.
    rewrite (to_uint64_small XorKey), (to_uint64_small AddKey) by assumption.
    change (to_uint64 0) with 0. rewrite Z.lxor_0_l. reflexivity. }
  rewrite He. split; [reflexivity|].
  change (2 ^ 64) with 18446744073709551616 in *.
  split; [split|]; intros; Z.div_mod_to_equations; lia.
Qed.

Lemma C5_zero_value_witness :
  (0 <= 7 < 2 ^ 64 /\ 0 <= 0 < 2 ^ 64) /\
  exists this,
    construct 7 0 0 = Some this /\
    lo64 (m_encryptedData this) = (7 + 0) mod 2 ^ 64 /\
    (lo64 (m_encryptedData this) <> 0 <->
     (7 <> 0 \/ 0 <> 0) /\ 7 + 0 <> 2 ^ 64) /\
    ((7 = 0 /\ 0 <> 0) \/ (7 <> 0 /\ 0 = 0) ->
     lo64 (m_encryptedData this) <> 0).
Proof.
  split; [lia|]. apply (C5_zero_value 7 0); lia.
Defined.

(** ** The accessors *)

(** C3. Decrypting accessor. On every object and for every pair of 64-bit
    keys, [DecryptData] yields [(stored - addKey) mod 2^64] exclusive-ored
    with [xorKey] (subtraction first, then exclusive-or), where [stored] is
    the low half of the cell; [GetCrypt] returns the conversion of that
    word to [T]; the call always returns a value, leaves the object
    unchanged, and its value is determined by the stored low half and the
    two keys. *)
Theorem C3_decrypting_accessor
  (XorKey AddKey : Z) (T : ArithType) (this : XorConstant) :
  0 <= XorKey < 2 ^ 64 -> 0 <= AddKey < 2 ^ 64 ->
  let stored := lo64 (m_encryptedData this) in
  let plain := Z.lxor ((stored - AddKey) mod 2 ^ 64) XorKey in
  DecryptData XorKey AddKey this = Some (plain, this) /\
  GetCrypt XorKey AddKey T this = lift (static_cast_to T plain) this /\
  (exists v, GetCrypt XorKey AddKey T this = Some (v, this)) /\
  (forall that : XorConstant,
      lo64 (m_encryptedData that) = stored ->
      option_map fst (GetCrypt XorKey AddKey T that)
      = option_map fst (GetCrypt XorKey AddKey T this)).
Proof.
  intros HX HA stored plain.
  assert (Hp : decrypt_word XorKey AddKey stored = plain).
  { unfold decrypt_word, plain.
    rewrite (to_uint64_small XorKey), (to_uint64_small AddKey) by assumption.
    reflexivity. }
  split; [| split; [| split]].
  - rewrite DecryptData_spec. fold stored. rewrite Hp. reflexivity.
  - rewrite GetCrypt_spec. fold stored. rewrite Hp. reflexivity.
  - apply GetCrypt_defined.
  - intros that Hlo. rewrite !GetCrypt_spec, Hlo. fold stored.
    destruct (static_cast_to T (decrypt_word XorKey AddKey stored));
      reflexivity.
Qed.

Lemma C3_decrypting_accessor_witness :
  (0 <= 51 < 2 ^ 64 /\ 0 <= 18446744073709551615 < 2 ^ 64) /\
  DecryptData 51 18446744073709551615
    {| m_encryptedData := {| lo64 := 24; hi64 := 24 |} |}
  = Some (42, {| m_encryptedData := {| lo64 := 24; hi64 := 24 |} |}) /\
  GetCrypt 51 18446744073709551615 (TInt true W32)
    {| m_encryptedData := {| lo64 := 24; hi64 := 24 |} |}
  = Some (VInt 42, {| m_encryptedData := {| lo64 := 24; hi64 := 24 |} |}).
Proof.
  split; [lia|].
  pose proof (C3_decrypting_accessor 51 18446744073709551615 (TInt true W32)
                {| m_encryptedData := {| lo64 := 24; hi64 := 24 |} |}
                ltac:(lia) ltac:(lia)) as [HD [HG _]].
  split; [exact HD | exact HG].
Defined.



(** C8. Reads are idempotent and leave the object unchanged. On every
    object, [Get] and [GetCrypt] each return a value and the object
    unchanged, and any sequence of accessor calls returns, call by call,
    those same two values and ends in the state it started from. *)
Theorem C8_reads_leave_state
  (XorKey AddKey : Z) (T : ArithType) (this : XorConstant)
  (l : list Accessor) :
  exists g c,
    Get T this = Some (g, this) /\
    GetCrypt XorKey AddKey T this = Some (c, this) /\
    calls XorKey AddKey T l this
    = Some (map (fun a => match a with CallGet => g | CallGetCrypt => c end) l,
            this).
Proof.
  destruct (Get_defined T this) as [g Hg].
  destruct (GetCrypt_defined XorKey AddKey T this) as [c Hc].
  exists g, c. split; [exact Hg|]. split; [exact Hc|].
  induction l as [| a l IH].
  - reflexivity.
  - cbn [calls map]. unfold bind.
    destruct a; cbn [call]; rewrite ?Hg, ?Hc, IH; reflexivity.
Qed.

(** ** Failure semantics *)

(** X9. Failure semantics of the class template. Instantiating the class
    with a type that is not arithmetic yields the [static_assert]
    diagnostic and no object, and that is the only way instantiation
    fails; with an arithmetic type it yields an object whose lanes are
    64-bit words, and then every operation returns: on every object state
    [EncryptData] stores 64-bit words, [DecryptData] returns a 64-bit
    word, [Get] and [GetCrypt] return a value. The macro yields an object
    for an arithmetic type whenever the conversion of the value to
    [uint64_t] is defined. *)
Theorem class_failure_semantics
  (key64 : Z -> Z) (T : CppType) (ConstantValue Seed : Z) :
  match T with
  | Arithmetic a =>
      (exists this,
          XorConstant_new key64 T ConstantValue Seed = inr this /\
          lanes_in_range (m_encryptedData this)) /\
      (forall that : XorConstant,
          (forall data, exists this',
              EncryptData (XorKey key64 Seed) (AddKey key64 Seed) data that
              = Some (tt, this') /\
              lanes_in_range (m_encryptedData this')) /\
          (exists d,
              DecryptData (XorKey key64 Seed) (AddKey key64 Seed) that
              = Some (d, that) /\ 0 <= d < 2 ^ 64) /\
          (exists g, Get a that = Some (g, that)) /\
          (exists c,
              GetCrypt (XorKey key64 Seed) (AddKey key64 Seed) a that
              = Some (c, that))) /\
      (forall fnv64 UNIQUE_SEED64 site value cv,
          static_cast_uint64 value = Some cv ->
          exists this,
            MakeXorConstant key64 fnv64 UNIQUE_SEED64 site T value = inr this)
  | _ =>
      XorConstant_new key64 T ConstantValue Seed
      = inl (StaticAssertFailed static_assert_message)
  end /\
  (forall e,
      XorConstant_new key64 T ConstantValue Seed = inl e ->
      is_arithmetic T = false /\ e = StaticAssertFailed static_assert_message).
Proof.
  split.
  - destruct T as [a | | |]; try reflexivity.
    split; [| split].
    + unfold XorConstant_new. cbn [is_arithmetic static_assert].
      rewrite construct_spec. eexists. split; [reflexivity|].
      split; apply encrypt_word_range.
    + intros that. split; [| split; [| split]].
      * intros data. rewrite EncryptData_spec. eexists.
        split; [reflexivity|]. split; apply encrypt_word_range.
      * rewrite DecryptData_spec. eexists. split; [reflexivity|].
        apply decrypt_word_range.
      * apply Get_defined.
      * apply GetCrypt_defined.
    + intros fnv64 UNIQUE_SEED64 site value cv Hcv.
      destruct (MakeXorConstant_spec key64 fnv64 UNIQUE_SEED64 site a value cv Hcv)
        as [this [H _]].
      exists this. exact H.
  - intros e He. destruct T as [a | | |];
      unfold XorConstant_new in He; cbn [is_arithmetic static_assert] in He.
    + rewrite construct_spec in He. discriminate.
    + injection He as <-. split; reflexivity.
    + injection He as <-. split; reflexivity.
    + injection He as <-. split; reflexivity.
Qed.

(** ** Floating-point constants through the macro *)

(** C6 fails on the code. Wherever [MakeXorConstant(3.14)] is expanded and
    whatever the hash functions are, the template argument is
    [static_cast<uint64_t>(3.14) = 3], and [GetCrypt] returns the [double]
    3.0, which is not the constant 3.14. *)
Theorem C6_double_3_14_decrypts_to_3
  (key64 : Z -> Z) (fnv64 : Z -> string -> Z) (UNIQUE_SEED64 : Z)
  (site : CallSite) :
  static_cast_uint64 (VFloating double_3_14) = Some 3 /\
  (exists this,
      MakeXorConstant key64 fnv64 UNIQUE_SEED64 site (Arithmetic TDouble)
        (VFloating double_3_14) = inr this /\
      GetCrypt (XorKey key64 (macro_Seed fnv64 UNIQUE_SEED64 site))
        (AddKey key64 (macro_Seed fnv64 UNIQUE_SEED64 site)) TDouble this
      = Some (VFloating double_3, this)) /\
  double_3 <> double_3_14.
Proof.
  split; [reflexivity|]. split; [| discriminate].
  destruct (MakeXorConstant_spec key64 fnv64 UNIQUE_SEED64 site TDouble
              (VFloating double_3_14) 3 eq_refl) as [this [H1 [_ H2]]].
  exists this. split; [exact H1|]. rewrite H2. reflexivity.
Qed.



(** * Further properties of the class *)

(** ** Integers that a floating format holds exactly *)

Lemma digits2_pos_bound (m : positive) :
  forall n : Z, 0 <= n -> Z.pos m < 2 ^ n -> Z.pos (digits2_pos m) <= n.
Proof.
  induction m as [p IH | p IH |]; intros n Hn Hm; cbn [digits2_pos].
  - assert (0 < n) by (destruct (Z.eq_dec n 0) as [-> |]; [cbn in Hm |]; lia).
    replace n with (Z.succ (n - 1)) in Hm by lia.
    rewrite Z.pow_succ_r in Hm by lia.
    specialize (IH (n - 1) ltac:(lia) ltac:(lia)). lia.
  - assert (0 < n) by (destruct (Z.eq_dec n 0) as [-> |]; [cbn in Hm |]; lia).
    replace n with (Z.succ (n - 1)) in Hm by lia.
    rewrite Z.pow_succ_r in Hm by lia.
    specialize (IH (n - 1) ltac:(lia) ltac:(lia)). lia.
  - destruct (Z.eq_dec n 0) as [-> |]; [cbn in Hm |]; lia.
Qed.

Lemma iter_xO_digits (m p : positive) :
  digits2_pos (Pos.iter xO m p) = (digits2_pos m + p)%positive.
Proof.
  induction p as [| p IH] using Pos.peano_ind.
  - cbn. lia.
  - rewrite Pos.iter_succ. cbn [digits2_pos]. rewrite IH. lia.
Qed.

Lemma iter_xO_value (m p : positive) :
  Z.pos (Pos.iter xO m p) = Z.pos m * 2 ^ Z.pos p.
Proof.
  induction p as [| p IH] using Pos.peano_ind.
  - cbn. lia.
  - rewrite Pos.iter_succ, Pos2Z.inj_succ, Z.pow_succ_r by lia.
    rewrite Pos2Z.inj_xO, IH. lia.
Qed.

(** Rounding a mantissa of at most [prec] digits, at exponent 0, changes
    nothing: the result is the mantissa shifted to exactly [prec] digits. *)
Lemma binary_round_exact (prec emax : Z) (s : bool) (m : positive) :
  0 < prec -> prec <= emax -> 2 <= emax ->
  Z.pos (digits2_pos m) <= prec ->
  exists mz,
    binary_round prec emax s m 0
    = S754_finite s mz (Z.pos (digits2_pos m) - prec) /\
    Z.pos mz = Z.pos m * 2 ^ (prec - Z.pos (digits2_pos m)) /\
    bounded prec emax mz (Z.pos (digits2_pos m) - prec) = true.
Proof.
  intros Hprec Hemax Hemax2 Hd.
  set (d := Z.pos (digits2_pos m)) in *.
  assert (Hfexp : fexp prec emax d = d - prec).
  { unfold fexp, emin. apply Z.max_l. lia. }
  unfold binary_round. rewrite Z.add_0_r. fold d. rewrite Hfexp.
  assert (Haux : forall mz : positive,
             Z.pos (digits2_pos mz) = prec ->
             binary_round_aux prec emax s (Z.pos mz) (d - prec) loc_Exact
             = S754_finite s mz (d - prec)).
  { intros mz Hmz.
    unfold binary_round_aux, shr_fexp. cbn [Zdigits2 shr_record_of_loc].
    rewrite Hmz. replace (prec + (d - prec)) with d by lia.
    rewrite Hfexp, Z.sub_diag. cbn [shr shr_m loc_of_shr_record round_nearest_even].
    cbn [Zdigits2 shr_record_of_loc]. rewrite Hmz.
    replace (prec + (d - prec)) with d by lia.
    rewrite Hfexp, Z.sub_diag. cbn [shr shr_m].
    destruct (Z.leb_spec (d - prec) (emax - prec)); [reflexivity | lia]. }
  assert (Hbnd : forall mz : positive,
             Z.pos (digits2_pos mz) = prec ->
             bounded prec emax mz (d - prec) = true).
  { intros mz Hmz. unfold bounded, canonical_mantissa. rewrite Hmz.
    replace (prec + (d - prec)) with d by lia. rewrite Hfexp, Z.eqb_refl.
    apply Z.leb_le. lia. }
  unfold shl_align. rewrite Z.sub_0_r.
  destruct (d - prec) as [| q | q] eqn:Hq; try lia.
  - exists m. split; [apply Haux; fold d; lia|].
    replace (prec - d) with 0 by lia.
    split; [lia | apply Hbnd; fold d; lia].
  - assert (Hdig : Z.pos (digits2_pos (Pos.iter xO m q)) = prec).
    { rewrite iter_xO_digits, Pos2Z.inj_add. fold d. lia. }
    exists (Pos.iter xO m q).
    split; [apply Haux; exact Hdig|]. split; [| apply Hbnd; exact Hdig].
    rewrite iter_xO_value. f_equal. f_equal. lia.
Qed.

(** The conversion of an integer below [2^prec] to the format is exact. *)
Lemma binary_normalize_exact (prec emax n : Z) :
  0 < prec -> prec <= emax -> 2 <= emax -> 0 <= n < 2 ^ prec ->
  valid_binary prec emax (binary_normalize prec emax n 0 false) = true /\
  truncate (binary_normalize prec emax n 0 false) = Some n /\
  represents_integer (binary_normalize prec emax n 0 false) n.
Proof.
  intros Hprec Hemax Hemax2 Hn.
  destruct n as [| m | m]; [cbn; auto | | lia].
  cbn [binary_normalize].
  pose proof (digits2_pos_bound m prec ltac:(lia) ltac:(lia)) as Hd.
  destruct (binary_round_exact prec emax false m Hprec Hemax Hemax2 Hd)
    as [mz [-> [Hmz Hb]]].
  set (d := Z.pos (digits2_pos m)) in *.
  assert (Hpow : 0 < 2 ^ (prec - d)) by (apply Z.pow_pos_nonneg; lia).
  split; [exact Hb|]. split.
  - cbn [truncate]. f_equal. unfold trunc_magnitude.
    destruct (Z.leb_spec 0 (d - prec)).
    + replace (d - prec) with 0 by lia.
      replace (prec - d) with 0 in Hmz by lia. cbn in Hmz |- *. lia.
    + replace (- (d - prec)) with (prec - d) by lia.
      rewrite Hmz. apply Z.div_mul. lia.
  - cbn [represents_integer]. split; [lia|].
    replace (- (d - prec)) with (prec - d) by lia. exact Hmz.
Qed.

Lemma int_to_floating_exact (prec emax n : Z) :
  0 < prec -> prec <= emax -> 0 <= n < 2 ^ prec ->
  int_to_floating prec emax n
  = Some (VFloating (binary_normalize prec emax n 0 false)).
Proof.
  intros Hprec Hemax Hn. unfold int_to_floating, max_finite.
  assert (Hp : 1 <= 2 ^ (emax - prec))
    by (pose proof (Z.pow_pos_nonneg 2 (emax - prec)); lia).
  destruct (Z.leb_spec (Z.abs n) ((2 ^ prec - 1) * 2 ^ (emax - prec)));
    [reflexivity | nia].
Qed.

(** X1. Floating-point constants without a fractional part survive the
    macro. For every integer [n] with [0 <= n < 2^24] ([float]) or
    [0 <= n < 2^53] ([double]), the conversion of [n] to [T] is a valid
    value [f] of [T] that is exactly [n]; the macro applied to [f] converts
    it back to [n], and [GetCrypt] on the resulting object returns [f]
    itself. *)
Theorem integer_valued_floating_round_trip
  (key64 : Z -> Z) (fnv64 : Z -> string -> Z) (UNIQUE_SEED64 : Z)
  (site : CallSite) (T : ArithType) (n : Z) :
  (T = TFloat /\ 0 <= n < 2 ^ 24) \/ (T = TDouble /\ 0 <= n < 2 ^ 53) ->
  exists f,
    static_cast_to T n = Some (VFloating f) /\
    has_type T (VFloating f) /\
    represents_integer f n /\
    static_cast_uint64 (VFloating f) = Some n /\
    exists this,
      MakeXorConstant key64 fnv64 UNIQUE_SEED64 site (Arithmetic T) (VFloating f)
      = inr this /\
      GetCrypt (XorKey key64 (macro_Seed fnv64 UNIQUE_SEED64 site))
        (AddKey key64 (macro_Seed fnv64 UNIQUE_SEED64 site)) T this
      = Some (VFloating f, this).
Proof.
  intros HT.
  assert (Hgen : exists prec emax,
             0 <= n < 2 ^ 64 /\
             static_cast_to T n = int_to_floating prec emax n /\
             (forall f, has_type T (VFloating f)
                        = (valid_binary prec emax f = true)) /\
             0 < prec /\ prec <= emax /\ 2 <= emax /\ 0 <= n < 2 ^ prec).
  { destruct HT as [[-> Hn] | [-> Hn]].
    - exists float_prec, float_emax. unfold float_prec, float_emax.
      repeat split; try reflexivity; lia.
    - exists double_prec, double_emax. unfold double_prec, double_emax.
      repeat split; try reflexivity; lia. }
  destruct Hgen as [prec [emax [Hn64 [Hcast [Hty [Hprec [Hemax [Hemax2 Hn]]]]]]]].
  destruct (binary_normalize_exact prec emax n Hprec Hemax Hemax2 Hn)
    as [Hvalid [Htrunc Hrep]].
  exists (binary_normalize prec emax n 0 false).
  assert (Hto : static_cast_to T n
                = Some (VFloating (binary_normalize prec emax n 0 false))).
  { rewrite Hcast. apply int_to_floating_exact; assumption. }
  assert (Hfrom : static_cast_uint64
                    (VFloating (binary_normalize prec emax n 0 false))
                  = Some n).
  { cbn [static_cast_uint64]. rewrite Htrunc.
    destruct (Z.leb_spec 0 n); [| lia].
    destruct (Z.ltb_spec n (2 ^ 64)); [reflexivity | lia]. }
  split; [exact Hto|]. split; [rewrite Hty; exact Hvalid|].
  split; [exact Hrep|]. split; [exact Hfrom|].
  destruct (MakeXorConstant_spec key64 fnv64 UNIQUE_SEED64 site T _ n Hfrom)
    as [this [Hm [_ Hg]]].
  exists this. split; [exact Hm|].
  rewrite Hg. unfold lift. rewrite Hto. reflexivity.
Qed.

Lemma integer_valued_floating_round_trip_witness :
  ((TDouble = TFloat /\ 0 <= 3 < 2 ^ 24) \/ (TDouble = TDouble /\ 0 <= 3 < 2 ^ 53)) /\
  exists f,
    static_cast_to TDouble 3 = Some (VFloating f) /\
    has_type TDouble (VFloating f) /\
    represents_integer f 3 /\
    static_cast_uint64 (VFloating f) = Some 3 /\
    exists this,
      MakeXorConstant sample_key64 sample_fnv64 sample_UNIQUE_SEED64
        site_line_10 (Arithmetic TDouble) (VFloating f) = inr this /\
      GetCrypt
        (XorKey sample_key64
           (macro_Seed sample_fnv64 sample_UNIQUE_SEED64 site_line_10))
        (AddKey sample_key64
           (macro_Seed sample_fnv64 sample_UNIQUE_SEED64 site_line_10))
        TDouble this
      = Some (VFloating f, this).
Proof.
  split; [right; split; [reflexivity | lia]|].
  apply (integer_valued_floating_round_trip sample_key64 sample_fnv64
           sample_UNIQUE_SEED64 site_line_10 TDouble 3).
  right. split; [reflexivity | lia].
Defined.

(** ** What the stored bits depend on *)

Lemma encrypt_word_inj (xorKey addKey a b : Z) :
  encrypt_word xorKey addKey a = encrypt_word xorKey addKey b ->
  to_uint64 a = to_uint64 b.
Proof.
  intros H. apply (f_equal (decrypt_word xorKey addKey)) in H.
  rewrite !decrypt_encrypt_word in H. exact H.
Qed.

Lemma MakeXorConstant_object
  (key64 : Z -> Z) (fnv64 : Z -> string -> Z) (UNIQUE_SEED64 : Z)
  (site : CallSite) (T : ArithType) (value : Value) (cv : Z) :
  static_cast_uint64 value = Some cv ->
  MakeXorConstant key64 fnv64 UNIQUE_SEED64 site (Arithmetic T) value
  = inr {| m_encryptedData :=
             _mm_set1_epi64x
               (encrypt_word
                  (XorKey key64 (macro_Seed fnv64 UNIQUE_SEED64 site))
                  (AddKey key64 (macro_Seed fnv64 UNIQUE_SEED64 site)) cv) |}.
Proof.
  intros Hcv.
  unfold MakeXorConstant, MakeXorConstantImpl, XorConstant_new.
  rewrite Hcv. cbn [is_arithmetic static_assert]. rewrite construct_spec.
  unfold _mm_set1_epi64x.
  rewrite (to_uint64_small (encrypt_word _ _ _)) by apply encrypt_word_range.
  reflexivity.
Qed.

(** X2. The object the macro builds records nothing of the value's type
    and nothing of the value beyond its conversion to [uint64_t]: at one
    call site, two values of any two arithmetic types get the same object
    exactly when their conversions to [uint64_t] are equal. *)
Theorem macro_object_determined_by_uint64
  (key64 : Z -> Z) (fnv64 : Z -> string -> Z) (UNIQUE_SEED64 : Z)
  (site : CallSite) (T1 T2 : ArithType) (v1 v2 : Value) (c1 c2 : Z) :
  static_cast_uint64 v1 = Some c1 ->
  static_cast_uint64 v2 = Some c2 ->
  (MakeXorConstant key64 fnv64 UNIQUE_SEED64 site (Arithmetic T1) v1
   = MakeXorConstant key64 fnv64 UNIQUE_SEED64 site (Arithmetic T2) v2
   <-> c1 = c2).
Proof.
  intros H1 H2.
  rewrite (MakeXorConstant_object _ _ _ site T1 v1 c1 H1).
  rewrite (MakeXorConstant_object _ _ _ site T2 v2 c2 H2).
  split.
  - intros H. injection H as H _.
    rewrite !(to_uint64_small (encrypt_word _ _ _)) in H
      by apply encrypt_word_range.
    apply encrypt_word_inj in H.
    rewrite !to_uint64_small in H
      by (eapply static_cast_uint64_range; eassumption).
    exact H.
  - intros ->. reflexivity.
Qed.

Lemma macro_object_determined_by_uint64_witness :
  (static_cast_uint64 (VFloating double_3_14) = Some 3 /\
   static_cast_uint64 (VInt 3) = Some 3) /\
  (MakeXorConstant sample_key64 sample_fnv64 sample_UNIQUE_SEED64 site_line_10
     (Arithmetic TDouble) (VFloating double_3_14)
   = MakeXorConstant sample_key64 sample_fnv64 sample_UNIQUE_SEED64 site_line_10
       (Arithmetic (TInt true W32)) (VInt 3)
   <-> 3 = 3).
Proof.
  split; [split; reflexivity|].
  apply (macro_object_determined_by_uint64 sample_key64 sample_fnv64
           sample_UNIQUE_SEED64 site_line_10 TDouble (TInt true W32)
           (VFloating double_3_14) (VInt 3) 3 3); reflexivity.
Defined.

(** ** Comparing obfuscated constants *)

Lemma pow2_bits_pos (w : IntWidth) : 0 < 2 ^ bits w.
Proof. destruct w; reflexivity. Qed.

Lemma add_mod_cancel_r (x y c n : Z) :
  0 < n -> (x + c) mod n = (y + c) mod n -> x mod n = y mod n.
Proof.
  intros Hn H.
  apply (f_equal (fun z => (z - c) mod n)) in H.
  rewrite !Zminus_mod_idemp_l in H.
  replace (x + c - c) with x in H by lia.
  replace (y + c - c) with y in H by lia.
  exact H.
Qed.

(** The low [w] bits of the transformed word are the transform of the low
    [w] bits of the constant. *)
Lemma encrypt_word_low_bits (xorKey addKey v : Z) (w : IntWidth) :
  encrypt_word xorKey addKey v mod 2 ^ bits w
  = (Z.lxor (v mod 2 ^ bits w) (xorKey mod 2 ^ bits w) + to_uint64 addKey)
    mod 2 ^ bits w.
Proof.
  unfold encrypt_word. unfold to_uint64 at 1. rewrite mod_mod_pow2.
  rewrite <- Zplus_mod_idemp_l.
  rewrite <- lxor_mod_pow2 by (destruct w; discriminate).
  unfold to_uint64 at 1 2. rewrite !mod_mod_pow2.
  reflexivity.
Qed.

Lemma encrypt_word_low_bits_eq (xorKey addKey a b : Z) (w : IntWidth) :
  encrypt_word xorKey addKey a mod 2 ^ bits w
  = encrypt_word xorKey addKey b mod 2 ^ bits w
  <-> a mod 2 ^ bits w = b mod 2 ^ bits w.
Proof.
  rewrite !encrypt_word_low_bits. split.
  - intros H. apply add_mod_cancel_r in H; [| apply pow2_bits_pos].
    assert (Hr : forall z, 0 <= Z.lxor (z mod 2 ^ bits w) (xorKey mod 2 ^ bits w)
                           < 2 ^ bits w).
    { intros z. apply lxor_range; [destruct w; discriminate | |];
        apply Z.mod_pos_bound, pow2_bits_pos. }
    rewrite (Z.mod_small _ _ (Hr a)), (Z.mod_small _ _ (Hr b)) in H.
    apply (f_equal (fun z => Z.lxor z (xorKey mod 2 ^ bits w))) in H.
    rewrite !lxor_cancel_r in H. exact H.
  - intros ->. reflexivity.
Qed.

Lemma wrap_signed_eq (w : IntWidth) (x y : Z) :
  wrap_signed w x = wrap_signed w y <-> x mod 2 ^ bits w = y mod 2 ^ bits w.
Proof.
  unfold wrap_signed.
  pose proof (Z.mod_pos_bound x (2 ^ bits w) (pow2_bits_pos w)).
  pose proof (Z.mod_pos_bound y (2 ^ bits w) (pow2_bits_pos w)).
  split.
  - destruct (Z.ltb_spec (x mod 2 ^ bits w) (2 ^ (bits w - 1)));
      destruct (Z.ltb_spec (y mod 2 ^ bits w) (2 ^ (bits w - 1))); lia.
  - intros ->. reflexivity.
Qed.

(** Conversions to an integer type agree exactly on integers that agree
    in the type's low bits. *)
Lemma static_cast_to_int_eq (s : bool) (w : IntWidth) (x y : Z) :
  static_cast_to (TInt s w) x = static_cast_to (TInt s w) y
  <-> x mod 2 ^ bits w = y mod 2 ^ bits w.
Proof.
  destruct s; cbn [static_cast_to].
  - rewrite <- wrap_signed_eq. split; [intros [= H]; exact H | intros ->; reflexivity].
  - split; [intros [= H]; exact H | intros ->; reflexivity].
Qed.

Lemma lift_value_eq {A : Type} (o1 o2 : option A) (t1 t2 : XorConstant) :
  option_map fst (lift o1 t1) = option_map fst (lift o2 t2) <-> o1 = o2.
Proof.
  unfold lift. destruct o1, o2; cbn; split; congruence.
Qed.

(** X3. Comparing two obfuscated integer constants through [Get] is the
    same as comparing the constants. For an integer type of width [w] and
    two objects built with the same keys from the constants [a] and [b],
    the raw values returned by [Get] are equal exactly when [a] and [b]
    agree modulo [2^w], which is exactly when the values returned by
    [GetCrypt] are equal. *)
Theorem Get_compares_constants
  (XorKey AddKey a b : Z) (s : bool) (w : IntWidth) :
  exists ta tb,
    construct XorKey AddKey a = Some ta /\
    construct XorKey AddKey b = Some tb /\
    (option_map fst (Get (TInt s w) ta) = option_map fst (Get (TInt s w) tb)
     <-> a mod 2 ^ bits w = b mod 2 ^ bits w) /\
    (option_map fst (GetCrypt XorKey AddKey (TInt s w) ta)
     = option_map fst (GetCrypt XorKey AddKey (TInt s w) tb)
     <-> a mod 2 ^ bits w = b mod 2 ^ bits w).
Proof.
  do 2 eexists. split; [apply construct_spec|]. split; [apply construct_spec|].
  split.
  - rewrite !Get_spec. cbn [m_encryptedData lo64].
    rewrite lift_value_eq, static_cast_to_int_eq, !to_int64_mod_pow2.
    apply encrypt_word_low_bits_eq.
  - rewrite !GetCrypt_spec. cbn [m_encryptedData lo64].
    rewrite lift_value_eq, static_cast_to_int_eq, !decrypt_encrypt_word.
    unfold to_uint64. rewrite !mod_mod_pow2. reflexivity.
Qed.

(** ** Decrypting and encrypting again *)

(** X4. Decrypting an object and encrypting the result again rewrites the
    cell with its low half in both halves: the low half is restored, the
    high half is overwritten by it. The object is left as it was exactly
    when its two halves were equal, as they are after construction. *)
Theorem decrypt_then_encrypt (XorKey AddKey : Z) (this : XorConstant) :
  0 <= lo64 (m_encryptedData this) < 2 ^ 64 ->
  (d <- DecryptData XorKey AddKey ;; EncryptData XorKey AddKey d)%member this
  = Some (tt, {| m_encryptedData :=
                   {| lo64 := lo64 (m_encryptedData this);
                      hi64 := lo64 (m_encryptedData this) |} |}) /\
  ((d <- DecryptData XorKey AddKey ;; EncryptData XorKey AddKey d)%member this
   = Some (tt, this)
   <-> hi64 (m_encryptedData this) = lo64 (m_encryptedData this)).
Proof.
  intros Hlo.
  assert (H : (d <- DecryptData XorKey AddKey ;;
               EncryptData XorKey AddKey d)%member this
              = Some (tt, {| m_encryptedData :=
                               {| lo64 := lo64 (m_encryptedData this);
                                  hi64 := lo64 (m_encryptedData this) |} |})).
  { unfold bind. rewrite DecryptData_spec, EncryptData_spec.
    rewrite encrypt_decrypt_word, to_uint64_small by assumption.
    reflexivity. }
  split; [exact H|]. rewrite H.
  destruct this as [[lo hi]]. cbn [m_encryptedData lo64 hi64].
  split.
  - intros [= Heq]. symmetry. exact Heq.
  - intros ->. reflexivity.
Qed.

Lemma decrypt_then_encrypt_witness :
  0 <= lo64 (m_encryptedData stored_42) < 2 ^ 64 /\
  (d <- DecryptData 51 7 ;; EncryptData 51 7 d)%member stored_42
  = Some (tt, stored_42).
Proof.
  split; [cbn; lia|].
  apply (decrypt_then_encrypt 51 7 stored_42); [cbn; lia | reflexivity].
Defined.

(** ** When the stored word is the plaintext *)

(** X5. The stored word equals the constant for exactly one additive key.
    For 64-bit keys and a 64-bit constant [v], the stored low half is [v]
    itself exactly when [addKey = (v - (v XOR xorKey)) mod 2^64]. So with
    [xorKey = 0] the constant is stored in clear exactly when [addKey = 0],
    and with [addKey = 0] exactly when [xorKey = 0]: if exactly one key is
    zero the stored word always differs from the constant. *)
Theorem stored_is_plaintext_iff (XorKey AddKey v : Z) :
  0 <= XorKey < 2 ^ 64 -> 0 <= AddKey < 2 ^ 64 -> 0 <= v < 2 ^ 64 ->
  exists this,
    construct XorKey AddKey v = Some this /\
    (lo64 (m_encryptedData this) = v
     <-> AddKey = (v - Z.lxor v XorKey) mod 2 ^ 64) /\
    (XorKey = 0 -> (lo64 (m_encryptedData this) = v <-> AddKey = 0)) /\
    (AddKey = 0 -> (lo64 (m_encryptedData this) = v <-> XorKey = 0)).
Proof.
  intros HX HA Hv.
  eexists. split; [apply construct_spec|]. cbn [m_encryptedData lo64].
  unfold encrypt_word.
  rewrite (to_uint64_small v), (to_uint64_small XorKey),
    (to_uint64_small AddKey) by assumption.
  assert (Hx : 0 <= Z.lxor v XorKey < 2 ^ 64)
    by (apply lxor_range; [discriminate | assumption | assumption]).
  unfold to_uint64.
  assert (Hmain : (Z.lxor v XorKey + AddKey) mod 2 ^ 64 = v
                  <-> AddKey = (v - Z.lxor v XorKey) mod 2 ^ 64).
  { revert Hx. generalize (Z.lxor v XorKey). intros x Hx.
    change (2 ^ 64) with 18446744073709551616 in *.
    split; intros; Z.div_mod_to_equations; lia. }
  split; [exact Hmain|]. split.
  - intros ->. rewrite Hmain, Z.lxor_0_r, Z.sub_diag. reflexivity.
  - intros ->. rewrite Z.add_0_r, Z.mod_small by assumption.
    split.
    + intros H. apply (f_equal (Z.lxor v)) in H.
      rewrite <- Z.lxor_assoc, Z.lxor_nilpotent, Z.lxor_0_l in H. exact H.
    + intros ->. apply Z.lxor_0_r.
Qed.

Lemma stored_is_plaintext_iff_witness :
  (0 <= 1 < 2 ^ 64 /\ 0 <= 1 < 2 ^ 64 /\ 0 <= 1 < 2 ^ 64) /\
  exists this,
    construct 1 1 1 = Some this /\
    (lo64 (m_encryptedData this) = 1 <-> 1 = (1 - Z.lxor 1 1) mod 2 ^ 64) /\
    (1 = 0 -> (lo64 (m_encryptedData this) = 1 <-> 1 = 0)) /\
    (1 = 0 -> (lo64 (m_encryptedData this) = 1 <-> 1 = 0)).
Proof.
  split; [lia|]. apply (stored_is_plaintext_iff 1 1 1); lia.
Defined.

(** ** Keys of neighbouring seeds *)

(** X6. Seeds 165 apart share a key. Since the exclusive-or key is
    [key64(Seed - 82)] and the additive key is [key64(Seed + 83)], the
    exclusive-or key of a seed is the additive key of the seed 165 below
    it (modulo 2^64), whatever the key derivation is. *)
Theorem keys_of_seeds_165_apart (key64 : Z -> Z) (Seed : Z) :
  XorKey key64 Seed = AddKey key64 (to_uint64 (Seed - 165)) /\
  AddKey key64 Seed = XorKey key64 (to_uint64 (Seed + 165)).
Proof.
  unfold XorKey, AddKey, LINE_of_XorKey, LINE_of_AddKey, to_uint64.
  split; do 2 f_equal.
  - rewrite Zplus_mod_idemp_l. f_equal. lia.
  - rewrite Zminus_mod_idemp_l. f_equal. lia.
Qed.

(** ** The accessors return values of the type *)

(** X7. For an integral [T], whatever the cell holds, [Get] and [GetCrypt]
    return a value of [T]: a [bool], or an integer within the range of the
    integer type. *)
Theorem accessors_return_values_of_T
  (XorKey AddKey : Z) (T : ArithType) (this : XorConstant) :
  is_integral T = true ->
  exists g c,
    Get T this = Some (g, this) /\ has_type T g /\
    GetCrypt XorKey AddKey T this = Some (c, this) /\ has_type T c.
Proof.
  intros HT.
  assert (Hcast : forall z, exists v,
             static_cast_to T z = Some v /\ has_type T v).
  { intros z. destruct T as [| s w | |]; try discriminate.
    - eexists. split; [reflexivity | exact I].
    - destruct s; cbn [static_cast_to]; eexists; (split; [reflexivity|]);
        cbn [has_type]; unfold int_min, int_max.
      + unfold wrap_signed.
        pose proof (Z.mod_pos_bound z (2 ^ bits w) (pow2_bits_pos w)) as Hb.
        assert (Hh : 2 ^ bits w = 2 * 2 ^ (bits w - 1))
          by (destruct w; reflexivity).
        destruct (Z.ltb_spec (z mod 2 ^ bits w) (2 ^ (bits w - 1))); lia.
      + pose proof (Z.mod_pos_bound z (2 ^ bits w) (pow2_bits_pos w)). lia. }
  destruct (Hcast (to_int64 (lo64 (m_encryptedData this)))) as [g [Hg Hgt]].
  destruct (Hcast (decrypt_word XorKey AddKey (lo64 (m_encryptedData this))))
    as [c [Hc Hct]].
  exists g, c.
  rewrite Get_spec, GetCrypt_spec. unfold lift. rewrite Hg, Hc.
  repeat split; assumption.
Qed.

Lemma accessors_return_values_of_T_witness :
  is_integral (TInt true W8) = true /\
  exists g c,
    Get (TInt true W8) stored_42 = Some (g, stored_42) /\
    has_type (TInt true W8) g /\
    GetCrypt 51 7 (TInt true W8) stored_42 = Some (c, stored_42) /\
    has_type (TInt true W8) c.
Proof.
  split; [reflexivity|].
  apply (accessors_return_values_of_T 51 7 (TInt true W8) stored_42).
  reflexivity.
Defined.

(** * Floating-point constants through the macro: where the round trip and
    the build fail *)

(** C1 fails on the code. The round trip does not hold for a
    floating-point value with a fractional part. For every [float] value
    whose integral part [n] is below [2^24], and every [double] value whose
    integral part is below [2^53], that is not itself an integer, the macro
    builds an object on which [GetCrypt] returns the integer [n] as a
    floating-point value, which is not the constant. *)
Theorem C1_fractional_constant_not_returned
  (key64 : Z -> Z) (fnv64 : Z -> string -> Z) (UNIQUE_SEED64 : Z)
  (site : CallSite) (T : ArithType) (f : spec_float) (n : Z) :
  (T = TFloat /\ n < 2 ^ 24) \/ (T = TDouble /\ n < 2 ^ 53) ->
  static_cast_uint64 (VFloating f) = Some n ->
  ~ represents_integer f n ->
  exists this r,
    MakeXorConstant key64 fnv64 UNIQUE_SEED64 site (Arithmetic T) (VFloating f)
    = inr this /\
    GetCrypt (XorKey key64 (macro_Seed fnv64 UNIQUE_SEED64 site))
      (AddKey key64 (macro_Seed fnv64 UNIQUE_SEED64 site)) T this
    = Some (VFloating r, this) /\
    represents_integer r n /\
    r <> f.
Proof.
  intros HT Hcv Hfrac.
  pose proof (static_cast_uint64_range _ _ Hcv) as Hn.
  assert (Hgen : exists prec emax,
             static_cast_to T n = int_to_floating prec emax n /\
             0 < prec /\ prec <= emax /\ 2 <= emax /\ 0 <= n < 2 ^ prec).
  { destruct HT as [[-> Hb] | [-> Hb]].
    - exists float_prec, float_emax. unfold float_prec, float_emax.
      repeat split; try reflexivity; lia.
    - exists double_prec, double_emax. unfold double_prec, double_emax.
      repeat split; try reflexivity; lia. }
  destruct Hgen as [prec [emax [Hcast [Hprec [Hemax [Hemax2 Hnp]]]]]].
  destruct (binary_normalize_exact prec emax n Hprec Hemax Hemax2 Hnp)
    as [_ [_ Hrep]].
  destruct (MakeXorConstant_spec key64 fnv64 UNIQUE_SEED64 site T _ n Hcv)
    as [this [Hm [_ Hg]]].
  exists this, (binary_normalize prec emax n 0 false).
  split; [exact Hm|]. split.
  - rewrite Hg, Hcast, int_to_floating_exact by assumption. reflexivity.
  - split; [exact Hrep|]. intros Heq. apply Hfrac. rewrite <- Heq. exact Hrep.
Qed.

Lemma C1_fractional_constant_not_returned_witness :
  ((TDouble = TFloat /\ 3 < 2 ^ 24) \/ (TDouble = TDouble /\ 3 < 2 ^ 53)) /\
  static_cast_uint64 (VFloating double_3_14) = Some 3 /\
  ~ represents_integer double_3_14 3 /\
  exists this r,
    MakeXorConstant sample_key64 sample_fnv64 sample_UNIQUE_SEED64 site_line_10
      (Arithmetic TDouble) (VFloating double_3_14) = inr this /\
    GetCrypt
      (XorKey sample_key64
         (macro_Seed sample_fnv64 sample_UNIQUE_SEED64 site_line_10))
      (AddKey sample_key64
         (macro_Seed sample_fnv64 sample_UNIQUE_SEED64 site_line_10))
      TDouble this
    = Some (VFloating r, this) /\
    represents_integer r 3 /\
    r <> double_3_14.
Proof.
  assert (Hfrac : ~ represents_integer double_3_14 3).
  { intros [_ H]. vm_compute in H. discriminate. }
  split; [right; split; [reflexivity | lia]|].
  split; [reflexivity|]. split; [exact Hfrac|].
  apply (C1_fractional_constant_not_returned sample_key64 sample_fnv64
           sample_UNIQUE_SEED64 site_line_10 TDouble double_3_14 3).
  - right. split; [reflexivity | lia].
  - reflexivity.
  - exact Hfrac.
Defined.

(** C9 fails on the code. Rejection of a non-arithmetic type is not the
    only failure: wherever the macro is expanded and whatever the
    arithmetic type, a value whose conversion to [uint64_t] is undefined
    does not build, because the template argument is no constant
    expression. Such a value is always a floating-point one: infinite or
    NaN, or with an integral part below 0 or not below [2^64]. The [double]
    constant -3.14 is one. *)
Theorem C9_macro_rejects_arithmetic_constant
  (key64 : Z -> Z) (fnv64 : Z -> string -> Z) (UNIQUE_SEED64 : Z)
  (site : CallSite) (T : ArithType) (value : Value) :
  static_cast_uint64 value = None ->
  is_arithmetic (Arithmetic T) = true /\
  MakeXorConstant key64 fnv64 UNIQUE_SEED64 site (Arithmetic T) value
  = inl NotAConstantExpression /\
  (exists f,
      value = VFloating f /\
      (truncate f = None \/
       exists t, truncate f = Some t /\ (t < 0 \/ 2 ^ 64 <= t))) /\
  static_cast_uint64 (VFloating double_minus_3_14) = None /\
  MakeXorConstant key64 fnv64 UNIQUE_SEED64 site (Arithmetic TDouble)
    (VFloating double_minus_3_14)
  = inl NotAConstantExpression.
Proof.
  intros Hnone. split; [reflexivity|]. split; [| split; [| split]].
  - unfold MakeXorConstant. rewrite Hnone. reflexivity.
  - destruct value as [b | z | f]; cbn [static_cast_uint64] in Hnone;
      try discriminate.
    exists f. split; [reflexivity|].
    destruct (truncate f) as [t|]; [right | left; reflexivity].
    exists t. split; [reflexivity|].
    destruct (Z.leb_spec 0 t); [| lia].
    destruct (Z.ltb_spec t (2 ^ 64)); [discriminate | lia].
  - reflexivity.
  - reflexivity.
Qed.

Lemma C9_macro_rejects_arithmetic_constant_witness :
  static_cast_uint64 (VFloating double_minus_3_14) = None /\
  is_arithmetic (Arithmetic TDouble) = true /\
  MakeXorConstant sample_key64 sample_fnv64 sample_UNIQUE_SEED64 site_line_10
    (Arithmetic TDouble) (VFloating double_minus_3_14)
  = inl NotAConstantExpression.
Proof.
  split; [reflexivity|].
  pose proof (C9_macro_rejects_arithmetic_constant sample_key64 sample_fnv64
                sample_UNIQUE_SEED64 site_line_10 TDouble
                (VFloating double_minus_3_14) eq_refl) as [H1 [H2 _]].
  split; [exact H1 | exact H2].
Defined.
